(** * Verification of [oss_src/util/cityhash_gl.cpp]

    Hashing of [flexible_type] values and vectors, and the proportion
    cutoff [hash64_proportion_cutoff].

    Data model:
    - [uint64_t] / [uint128_t] are [Z] with the wrap-around written out;
    - [double] is IEEE 754 binary64, given by the Standard Library's
      [spec_float] at precision 53 and [emax] 1024 ([SFmul], [SFcompare]
      are the executable specification of the hardware operations);
    - a call that may stop in a failed check, or leave the behaviour
      undefined, returns an [outcome]. *)

From Stdlib Require Import ZArith Lia List Bool.
From Stdlib Require Import Floats.SpecFloat.
Import ListNotations.

Local Open Scope Z_scope.

(** ** Fixed-width unsigned integers *)

Module UInt64.

Definition bits : Z := 64.
Definition modulus : Z := 2 ^ bits.

(** [std::numeric_limits<uint64_t>::max()] *)
Definition max : Z := modulus - 1.

Definition wrap (z : Z) : Z := z mod modulus.

Definition in_range (z : Z) : bool := (0 <=? z) && (z <? modulus).

Definition add (a b : Z) : Z := wrap (a + b).
Definition sub (a b : Z) : Z := wrap (a - b).

(** [uint64_t(1) << k] for a shift count below the width. *)
Definition shl (a k : Z) : Z := wrap (Z.shiftl a k).

(** [std::min] on two unsigned values. *)
Definition min (a b : Z) : Z := if b <? a then b else a.

End UInt64.

(** ** Outcomes of a call *)

(** The comparison a failed check was about: the operator, and the two
    operands as the diagnostic prints them. *)
Inductive check_op := OpGE | OpLE.

Record check_failure := CheckFailure {
  cf_op : check_op;
  cf_lhs : spec_float;
  cf_rhs : spec_float
}.

Inductive outcome (A : Type) : Type :=
| Returned (a : A)
| Fatal (c : check_failure)
| Undefined.

Arguments Returned {A} a.
Arguments Fatal {A} c.
Arguments Undefined {A}.

Definition bind {A B : Type} (m : outcome A) (k : A -> outcome B) : outcome B :=
  match m with
  | Returned a => k a
  | Fatal c => Fatal c
  | Undefined => Undefined
  end.

Notation "x <- m ;; k" := (bind m (fun x => k))
  (at level 61, m at next level, right associativity).
Notation "m ;;; k" := (bind m (fun _ => k))
  (at level 61, right associativity).

(** ** IEEE 754 binary64 *)

Module Double.

Definition prec : Z := 53.
Definition emax : Z := 1024.

Definition double := spec_float.

(** The values a C++ [double] can hold. *)
Definition valid (x : double) : Prop := valid_binary prec emax x = true.

Definition mul (x y : double) : double := SFmul prec emax x y.

(** [x >= y] and [x <= y]; false as soon as one side is a NaN. *)
Definition ge (x y : double) : bool := SFleb y x.
Definition le (x y : double) : bool := SFleb x y.
Definition lt (x y : double) : bool := SFltb x y.

(** The literals [0.0] and [1.0]. *)
Definition zero : double := S754_zero false.
Definition one : double := S754_finite false 4503599627370496 (-52).

(** [double(n)] for an unsigned integer [n]: round to nearest even. *)
Definition of_uint64 (n : Z) : double := binary_normalize prec emax n 0 false.

(** The integer part of a finite value, rounding toward zero; nothing for
    infinities and NaN.  [Z.shiftl] by a negative count shifts right. *)
Definition trunc (x : double) : option Z :=
  match x with
  | S754_zero _ => Some 0
  | S754_finite s m e => Some (cond_Zopp s (Z.shiftl (Zpos m) e))
  | S754_infinity _ => None
  | S754_nan => None
  end.

(** The value of a finite [double] counted in units of [2^-1074], the
    smallest positive [double]: an integer, since no exponent is below
    [-1074]. *)
Definition scaled (x : double) : Z :=
  match x with
  | S754_finite s m e => cond_Zopp s (Zpos m * 2 ^ (e + 1074))
  | _ => 0
  end.

(** [uint64_t(x)]: the fractional part is discarded; the behaviour is
    undefined when the truncated value is not a [uint64_t]. *)
Definition to_uint64 (x : double) : outcome Z :=
  match trunc x with
  | Some z => if UInt64.in_range z then Returned z else Undefined
  | None => Undefined
  end.

End Double.

(** ** Checks of [logger/assertions.hpp] *)

(** Modelled from the spec: the macros [DASSERT_GE] and [DASSERT_LE] are
    defined in the header [logger/assertions.hpp], outside
    [cityhash_gl.cpp].  The specification describes them as assertion-style
    fatal checks that stop the call with a diagnostic naming the violated
    bound and the offending value; a check whose comparison holds does
    nothing. *)
Definition DASSERT_GE (val1 val2 : Double.double) : outcome unit :=
  if Double.ge val1 val2 then Returned tt
  else Fatal (CheckFailure OpGE val1 val2).

Definition DASSERT_LE (val1 val2 : Double.double) : outcome unit :=
  if Double.le val1 val2 then Returned tt
  else Fatal (CheckFailure OpLE val1 val2).

(** ** [hash64_proportion_cutoff] *)

(** [uint64_t(1) << 63] *)
Definition clip_0 : Z := UInt64.shl 1 63.

(** [std::numeric_limits<uint64_t>::max() - clip_0] *)
Definition clip_1 : Z := UInt64.sub UInt64.max clip_0.

(** [double(uint64_t(1) << 63)] *)
Definition two63 : Double.double := Double.of_uint64 (UInt64.shl 1 63).

(** [uint64_t(proportion * double(uint64_t(1) << 63))] *)
Definition x_half_of (proportion : Double.double) : outcome Z :=
  Double.to_uint64 (Double.mul proportion two63).

(** The return expression, for a given [x_half]. *)
Definition cutoff_sum (x_half : Z) : Z :=
  UInt64.add (UInt64.min clip_0 x_half) (UInt64.min clip_1 x_half).

(** The statements below the two checks. *)
Definition cutoff_arithmetic (proportion : Double.double) : outcome Z :=
  x_half <- x_half_of proportion ;;
  Returned (cutoff_sum x_half).

Definition hash64_proportion_cutoff (proportion : Double.double) : outcome Z :=
  DASSERT_GE proportion Double.zero ;;;
  DASSERT_LE proportion Double.one ;;;
  cutoff_arithmetic proportion.

(** The literals [-0.1] and [1.1], rounded to binary64 as a compiler does:
    [-0x1.999999999999ap-4] and [0x1.199999999999ap+0]. *)
Definition minus_one_tenth : Double.double := S754_finite true 7205759403792794 (-56).
Definition eleven_tenths : Double.double := S754_finite false 4953959590107546 (-52).

(** [0.25] and [0.5]. *)
Definition one_quarter : Double.double := S754_finite false 4503599627370496 (-54).
Definition one_half : Double.double := S754_finite false 4503599627370496 (-53).

(** The largest [double] below [1.0], and the smallest above [0.0]. *)
Definition below_one : Double.double := S754_finite false 9007199254740991 (-53).
Definition least_positive : Double.double := S754_finite false 1 (-1074).

(** [2.0], and [2^-63] with either sign: the proportions between which the
    conversion to [uint64_t] has a value. *)
Definition two : Double.double := S754_finite false 4503599627370496 (-51).
Definition two_m63 : Double.double := S754_finite false 4503599627370496 (-115).
Definition minus_two_m63 : Double.double := S754_finite true 4503599627370496 (-115).

(** [-2^-63 < p] and [p < 2.0]. *)
Definition conversion_defined (p : Double.double) : bool :=
  Double.lt minus_two_m63 p && Double.lt p two.


(** ** The cutoff on the unit interval *)

(** [0.0 <= p] and [p <= 1.0], the two comparisons the checks make. *)
Definition in_unit_interval (p : Double.double) : bool :=
  Double.ge p Double.zero && Double.le p Double.one.

(** [floor (p * 2^63)] computed on the exact value of [p]. *)
Definition floor_scale63 (p : Double.double) : Z := Double.scaled p / 2 ^ 1011.

(** A shift record with no bit shifted out so far. *)
Definition exact_record (x : Z) : shr_record := Build_shr_record x false false.

(** ** Hashing of [flexible_type] values and vectors *)

Definition uint64_t := Z.
Definition uint128_t := Z.

(** What the functions use of [flexible_type]: its two hashing methods,
    [v.hash128()] and [v.hash()].  The class is declared in
    [flexible_type/flexible_type.hpp]. *)
Class FlexibleType (T : Type) := {
  ft_hash128 : T -> uint128_t;
  ft_hash : T -> uint64_t
}.

(** What the functions use of [util/cityhash_gl.hpp]: the overload of
    [hash128] that overload resolution picks for a [size_t] argument, the
    mixing function [hash128_combine], and [hash64] on a [uint128_t]. *)
Class CityHash := {
  hash128_size : Z -> uint128_t;
  hash128_combine : uint128_t -> uint128_t -> uint128_t;
  hash64_uint128 : uint128_t -> uint64_t
}.

Section HashingModel.

Context {flexible_type : Type} `{FlexibleType flexible_type} `{CityHash}.

(** [uint128_t hash128(const flexible_type& v)] *)
Definition hash128 (v : flexible_type) : uint128_t := ft_hash128 v.

(** [uint64_t hash64(const flexible_type& v)] *)
Definition hash64 (v : flexible_type) : uint64_t := ft_hash v.

(** The range-based [for] of the vector overload: [h] is the running
    hash, [v] what is left of the vector. *)
Fixpoint hash128_loop (h : uint128_t) (v : list flexible_type) : uint128_t :=
  match v with
  | [] => h
  | x :: rest => hash128_loop (hash128_combine h (ft_hash128 x)) rest
  end.

(** [uint128_t hash128(const std::vector<flexible_type>& v)] *)
Definition hash128_vector (v : list flexible_type) : uint128_t :=
  let h := hash128_size (Z.of_nat (length v)) in
  hash128_loop h v.

(** [uint64_t hash64(const std::vector<flexible_type>& v)] *)
Definition hash64_vector (v : list flexible_type) : uint64_t :=
  hash64_uint128 (hash128_vector v).

(** The sequence digest in the specification's words: seed with the hash
    of the length, then fold [combine128] over the elements' digests from
    the left. *)
Definition hash128_seq_spec (seq : list flexible_type) : uint128_t :=
  fold_left (fun h x => hash128_combine h (ft_hash128 x)) seq
            (hash128_size (Z.of_nat (length seq))).

End HashingModel.

(** A small instance to run the hash functions on: digests and mixing are
    plain arithmetic, chosen only so that results can be read off. *)
Module Toy.

Definition toy_value : FlexibleType Z := {|
  ft_hash128 := fun v => 1000 + v;
  ft_hash := fun v => 2000 + v
|}.

(** The same digests on another type of values. *)
Definition toy_nat_value : FlexibleType nat := {|
  ft_hash128 := fun n => 1000 + Z.of_nat n;
  ft_hash := fun n => 5 * Z.of_nat n
|}.

Definition toy_cityhash : CityHash := {|
  hash128_size := fun n => 7 * n;
  hash128_combine := fun h d => 31 * h + d;
  hash64_uint128 := fun h => h mod 2 ^ 64
|}.

End Toy.


(** ** Arithmetic of the binary64 operations *)

(** Closes a goal [0 < 2 ^ k] once [k] is known not to be negative. *)
Ltac pow2_pos := apply Z.pow_pos_nonneg; lia.

Lemma digits2_pos_log2 (m : positive) :
  Zpos (digits2_pos m) = Z.log2 (Zpos m) + 1.
Proof.
  induction m as [m IH | m IH |]; cbn [digits2_pos].
  - rewrite Pos2Z.inj_succ, IH.
    change (Zpos m~1) with (2 * Zpos m + 1).
    rewrite Z.log2_succ_double by lia. lia.
  - rewrite Pos2Z.inj_succ, IH.
    change (Zpos m~0) with (2 * Zpos m).
    rewrite Z.log2_double by lia. lia.
  - reflexivity.
Qed.

Lemma digits2_pos_bounds (m : positive) :
  2 ^ (Zpos (digits2_pos m) - 1) <= Zpos m < 2 ^ Zpos (digits2_pos m).
Proof.
  rewrite digits2_pos_log2.
  replace (Z.log2 (Zpos m) + 1 - 1) with (Z.log2 (Zpos m)) by lia.
  replace (Z.log2 (Zpos m) + 1) with (Z.succ (Z.log2 (Zpos m))) by lia.
  apply Z.log2_spec. lia.
Qed.

Lemma Zdigits2_mul_pow2 (x k : Z) :
  0 < x -> 0 <= k -> Zdigits2 (x * 2 ^ k) = Zdigits2 x + k.
Proof.
  intros Hx Hk.
  assert (Hp : 0 < x * 2 ^ k) by (apply Z.mul_pos_pos; [lia | pow2_pos]).
  destruct x as [| px | px]; try lia.
  destruct (Zpos px * 2 ^ k) as [| q | q] eqn:E; try lia.
  cbn [Zdigits2]. rewrite !digits2_pos_log2, <- E.
  rewrite Z.log2_mul_pow2 by lia. lia.
Qed.

Lemma iter_pos_nat {A : Type} (f : A -> A) (p : positive) (x : A) :
  iter_pos f p x = Nat.iter (Pos.to_nat p) f x.
Proof.
  revert x; induction p as [p IH | p IH |]; intros x; cbn [iter_pos].
  - rewrite !IH, Pos2Nat.inj_xI, Nat.iter_succ_r.
    replace (2 * Pos.to_nat p)%nat with (Pos.to_nat p + Pos.to_nat p)%nat by lia.
    now rewrite Nat.iter_add.
  - rewrite !IH, Pos2Nat.inj_xO.
    replace (2 * Pos.to_nat p)%nat with (Pos.to_nat p + Pos.to_nat p)%nat by lia.
    now rewrite Nat.iter_add.
  - reflexivity.
Qed.

Lemma shr_1_exact (x : Z) : 0 < x -> shr_1 (exact_record (2 * x)) = exact_record x.
Proof. destruct x; try lia. reflexivity. Qed.

Lemma iter_shr_1_exact (n : nat) (x : Z) :
  0 < x -> Nat.iter n shr_1 (exact_record (x * 2 ^ Z.of_nat n)) = exact_record x.
Proof.
  intros Hx; induction n as [| n IH].
  - cbn [Nat.iter]. now rewrite Z.mul_1_r.
  - rewrite Nat.iter_succ_r, Nat2Z.inj_succ, Z.pow_succ_r by lia.
    replace (x * (2 * 2 ^ Z.of_nat n)) with (2 * (x * 2 ^ Z.of_nat n)) by ring.
    rewrite shr_1_exact; [exact IH |].
    apply Z.mul_pos_pos; [lia | pow2_pos].
Qed.

(** Shifting out [n] zero bits loses nothing. *)
Lemma shr_exact (x e n : Z) :
  0 < x -> 0 <= n -> shr (exact_record (x * 2 ^ n)) e n = (exact_record x, e + n).
Proof.
  intros Hx Hn. destruct n as [| p | p]; try lia.
  - cbn [shr]. now rewrite Z.mul_1_r, Z.add_0_r.
  - cbn [shr]. rewrite iter_pos_nat.
    rewrite <- (positive_nat_Z p) at 1.
    now rewrite iter_shr_1_exact.
Qed.

Lemma two63_eq : two63 = S754_finite false 4503599627370496 11.
Proof. reflexivity. Qed.

(** *** A mantissa and an exponent that make a binary64 value *)

Section Canonical.

Variables (m : positive) (e : Z).
Hypothesis Hb : bounded Double.prec Double.emax m e = true.

(** Either the mantissa has all 53 digits, or the exponent is the least
    one and the value is subnormal. *)
Lemma canonical_cases :
  -1074 <= e <= 971 /\
  1 <= Zpos (digits2_pos m) <= 53 /\
  (Zpos (digits2_pos m) = 53 \/ e = -1074).
Proof.
  pose proof Hb as H.
  unfold bounded, canonical_mantissa, fexp, emin, Double.prec, Double.emax in H.
  apply andb_true_iff in H; destruct H as [H1 H2].
  apply Z.eqb_eq in H1. apply Z.leb_le in H2. lia.
Qed.

(** Scaling a [double] by [2^63] is exact while the exponent stays in
    range: the result has the operand's mantissa, shifted left until it
    has 53 digits, and no bit is rounded away. *)
Lemma mul_two63_finite (s : bool) :
  e <= 908 ->
  exists m' : positive,
    Double.mul (S754_finite s m e) two63
      = S754_finite s m' (Zpos (digits2_pos m) + e + 10)
    /\ Zpos m' = Zpos m * 2 ^ (53 - Zpos (digits2_pos m)).
Proof.
  intros He.
  destruct canonical_cases as (Hrange & Hd & Hcan).
  set (d := Zpos (digits2_pos m)) in *.
  assert (Hpow : 0 < 2 ^ (53 - d)) by pow2_pos.
  assert (Hm' : 0 < Zpos m * 2 ^ (53 - d)) by lia.
  destruct (Zpos m * 2 ^ (53 - d)) as [| m' | m'] eqn:Em'; try lia.
  exists m'. split; [| reflexivity].
  rewrite two63_eq. unfold Double.mul. cbn [SFmul].
  rewrite xorb_false_r.
  assert (Hprod : Zpos (m * 4503599627370496) = Zpos m' * 2 ^ (d - 1)).
  { rewrite Pos2Z.inj_mul, <- Em'.
    change (Zpos 4503599627370496) with (2 ^ 52).
    rewrite <- Z.mul_assoc, <- Z.pow_add_r by lia.
    f_equal. f_equal. lia. }
  assert (Hdig' : Zdigits2 (Zpos m') = 53).
  { rewrite <- Em'. rewrite Zdigits2_mul_pow2 by lia. cbn [Zdigits2]. fold d. lia. }
  unfold binary_round_aux, shr_fexp.
  rewrite Hprod at 1 2.
  rewrite Zdigits2_mul_pow2, Hdig' by lia.
  assert (Hf1 : fexp Double.prec Double.emax (53 + (d - 1) + (e + 11)) - (e + 11) = d - 1).
  { unfold fexp, emin, Double.prec, Double.emax. lia. }
  rewrite Hf1.
  change (shr_record_of_loc (Zpos m' * 2 ^ (d - 1)) loc_Exact)
    with (exact_record (Zpos m' * 2 ^ (d - 1))).
  rewrite shr_exact by lia.
  cbn [exact_record shr_m loc_of_shr_record round_nearest_even shr_record_of_loc].
  rewrite Hdig'.
  assert (Hf2 : fexp Double.prec Double.emax (53 + (e + 11 + (d - 1))) - (e + 11 + (d - 1)) = 0).
  { unfold fexp, emin, Double.prec, Double.emax. lia. }
  rewrite Hf2. cbn [shr shr_m].
  replace (e + 11 + (d - 1)) with (d + e + 10) by lia.
  replace (d + e + 10 <=? Double.emax - Double.prec) with true; [reflexivity |].
  symmetry; apply Z.leb_le. unfold Double.emax, Double.prec. lia.
Qed.

End Canonical.

(** On valid non-negative values the comparison of [double]s is the
    comparison of their values. *)
Lemma SFcompare_scaled_pos (m1 m2 : positive) (e1 e2 : Z) :
  bounded Double.prec Double.emax m1 e1 = true ->
  bounded Double.prec Double.emax m2 e2 = true ->
  SFcompare (S754_finite false m1 e1) (S754_finite false m2 e2)
    = Some (Double.scaled (S754_finite false m1 e1)
              ?= Double.scaled (S754_finite false m2 e2)).
Proof.
  intros H1 H2.
  destruct (canonical_cases m1 e1 H1) as (Hr1 & Hd1 & Hc1).
  destruct (canonical_cases m2 e2 H2) as (Hr2 & Hd2 & Hc2).
  pose proof (digits2_pos_bounds m1) as B1.
  pose proof (digits2_pos_bounds m2) as B2.
  cbn [SFcompare Double.scaled cond_Zopp]. f_equal.
  assert (gap : forall ma mb ea eb,
             -1074 <= ea < eb ->
             Zpos ma < 2 ^ 53 -> 2 ^ 52 <= Zpos mb ->
             Zpos ma * 2 ^ (ea + 1074) < Zpos mb * 2 ^ (eb + 1074)).
  { intros ma mb ea eb Hab Ha Hb.
    assert (0 < 2 ^ (ea + 1074)) by pow2_pos.
    assert (2 ^ (ea + 1074 + 1) <= 2 ^ (eb + 1074))
      by (apply Z.pow_le_mono_r; lia).
    rewrite Z.pow_add_r in * by lia.
    change (2 ^ 53) with (2 * 2 ^ 52) in Ha. change (2 ^ 1) with 2 in *. nia. }
  assert (top : forall m, Zpos (digits2_pos m) <= 53 ->
             Zpos m < 2 ^ Zpos (digits2_pos m) -> Zpos m < 2 ^ 53).
  { intros m Hd Hm. eapply Z.lt_le_trans; [exact Hm |].
    apply Z.pow_le_mono_r; lia. }
  destruct (Z.compare_spec e1 e2) as [E | E | E].
  - subst e2. rewrite Pos.compare_cont_spec. cbn [Pos.switch_Eq].
    assert (0 < 2 ^ (e1 + 1074)) by pow2_pos.
    rewrite <- Zmult_compare_compat_r by lia.
    change (Zpos m1 ?= Zpos m2) with (m1 ?= m2)%positive.
    now destruct (m1 ?= m2)%positive.
  - symmetry; apply Z.compare_lt_iff. apply gap; try lia.
    + apply top; lia.
    + destruct Hc2 as [Hc2 | Hc2]; [| lia].
      rewrite Hc2 in B2. change (53 - 1) with 52 in B2. lia.
  - symmetry; apply Z.compare_gt_iff. apply gap; try lia.
    + apply top; lia.
    + destruct Hc1 as [Hc1 | Hc1]; [| lia].
      rewrite Hc1 in B1. change (53 - 1) with 52 in B1. lia.
Qed.

(** ** Arithmetic of the cutoff *)

Lemma clip_0_eq : clip_0 = 2 ^ 63.
Proof. reflexivity. Qed.

Lemma clip_1_eq : clip_1 = 2 ^ 63 - 1.
Proof. reflexivity. Qed.

Lemma scaled_one : Double.scaled Double.one = 2 ^ 1074.
Proof. reflexivity. Qed.

Lemma uint64_min_spec (a b : Z) : UInt64.min a b = Z.min a b.
Proof. unfold UInt64.min. destruct (Z.ltb_spec b a); lia. Qed.

(** The sum of the two clipped halves fits 64 bits. *)
Lemma cutoff_sum_no_wrap (x : Z) :
  0 <= x ->
  cutoff_sum x = Z.min (2 ^ 63) x + Z.min (2 ^ 63 - 1) x.
Proof.
  intros Hx. unfold cutoff_sum, UInt64.add, UInt64.wrap.
  rewrite !uint64_min_spec, clip_0_eq, clip_1_eq.
  apply Z.mod_small.
  change UInt64.modulus with (2 * 2 ^ 63).
  assert (0 < 2 ^ 63) by reflexivity. lia.
Qed.

Lemma cutoff_sum_mono (x y : Z) :
  0 <= x <= y -> cutoff_sum x <= cutoff_sum y.
Proof. intros H. rewrite !cutoff_sum_no_wrap by lia. lia. Qed.

(** What a valid [double] in the unit interval looks like. *)
Lemma unit_interval_inv (p : Double.double) :
  Double.valid p ->
  in_unit_interval p = true ->
  (exists s, p = S754_zero s) \/
  (exists m e, p = S754_finite false m e
               /\ bounded Double.prec Double.emax m e = true
               /\ e <= -52
               /\ 0 < Double.scaled p <= 2 ^ 1074).
Proof.
  intros Hv Hin. apply andb_true_iff in Hin. destruct Hin as [Hge Hle].
  destruct p as [s | s | | s m e].
  - left. now exists s.
  - destruct s; discriminate.
  - discriminate.
  - destruct s; [discriminate |].
    right. exists m, e. unfold Double.valid in Hv. cbn [valid_binary] in Hv.
    split; [reflexivity |]. split; [exact Hv |]. split; [| split].
    + unfold Double.le, SFleb, Double.one in Hle. cbn [SFcompare] in Hle.
      destruct (Z.compare_spec e (-52)); try lia; discriminate.
    + cbn [Double.scaled cond_Zopp].
      destruct (canonical_cases m e Hv) as (Hr & _).
      assert (0 < 2 ^ (e + 1074)) by pow2_pos. lia.
    + unfold Double.le, SFleb, Double.one in Hle.
      rewrite SFcompare_scaled_pos in Hle by (trivial; reflexivity).
      rewrite <- scaled_one. unfold Double.one.
      apply Z.compare_le_iff. intros C. now rewrite C in Hle.
Qed.

(** *** A proportion that passes both checks *)

Section UnitInterval.

Variable p : Double.double.
Hypothesis Hv : Double.valid p.
Hypothesis Hin : in_unit_interval p = true.

Lemma scaled_unit_interval : 0 <= Double.scaled p <= 2 ^ 1074.
Proof.
  destruct (unit_interval_inv p Hv Hin) as [[s E] | (m & e & E & _ & _ & H)].
  - rewrite E. cbn [Double.scaled]. split; [lia | apply Z.pow_nonneg; lia].
  - lia.
Qed.

Lemma floor_scale63_range : 0 <= floor_scale63 p <= 2 ^ 63.
Proof.
  pose proof scaled_unit_interval as [H0 H1].
  unfold floor_scale63.
  assert (Hpos : 0 < 2 ^ 1011) by pow2_pos.
  split; [apply Z.div_pos; lia |].
  replace (2 ^ 63) with (2 ^ 1074 / 2 ^ 1011).
  - apply Z.div_le_mono; lia.
  - change 1074 with (63 + 1011). rewrite Z.pow_add_r by lia.
    apply Z.div_mul. lia.
Qed.

Lemma floor_scale63_fits : UInt64.in_range (floor_scale63 p) = true.
Proof.
  pose proof floor_scale63_range as Hr.
  unfold UInt64.in_range. apply andb_true_iff; split.
  - apply Z.leb_le; lia.
  - apply Z.ltb_lt. change UInt64.modulus with (2 * 2 ^ 63).
    assert (0 < 2 ^ 63) by reflexivity. lia.
Qed.

(** The product [p * 2^63] is exact, so truncating it gives the floor of
    the exact product, a value that fits [uint64_t]. *)
Lemma x_half_of_exact : x_half_of p = Returned (floor_scale63 p).
Proof.
  pose proof floor_scale63_fits as Hfit.
  destruct (unit_interval_inv p Hv Hin)
    as [[s E] | (m & e & E & Hb & He & _)]; rewrite E in Hfit |- *.
  - reflexivity.
  - destruct (mul_two63_finite m e Hb false) as (m' & Hmul & Hm'); [lia |].
    destruct (canonical_cases m e Hb) as (Hrange & Hd & _).
    unfold x_half_of, Double.to_uint64. rewrite Hmul.
    cbn [Double.trunc cond_Zopp].
    assert (Hx : Z.shiftl (Zpos m') (Zpos (digits2_pos m) + e + 10)
                 = floor_scale63 (S754_finite false m e)).
    { rewrite Hm', <- Z.shiftl_mul_pow2 by lia.
      rewrite Z.shiftl_shiftl by lia.
      unfold floor_scale63. cbn [Double.scaled cond_Zopp].
      rewrite <- Z.shiftl_mul_pow2, <- Z.shiftr_div_pow2 by lia.
      rewrite <- Z.shiftl_opp_r, Z.shiftl_shiftl by lia.
      f_equal. lia. }
    rewrite Hx, Hfit. reflexivity.
Qed.

Lemma checks_pass : hash64_proportion_cutoff p = cutoff_arithmetic p.
Proof.
  pose proof Hin as H. apply andb_true_iff in H. destruct H as [Hge Hle].
  unfold hash64_proportion_cutoff, DASSERT_GE, DASSERT_LE.
  now rewrite Hge, Hle.
Qed.

Lemma cutoff_in_unit_interval :
  hash64_proportion_cutoff p = Returned (cutoff_sum (floor_scale63 p)).
Proof.
  rewrite checks_pass. unfold cutoff_arithmetic.
  now rewrite x_half_of_exact.
Qed.

End UnitInterval.

(** *** A proportion that fails a check *)

Lemma lt_zero_fails_ge (p : Double.double) :
  Double.lt p Double.zero = true -> Double.ge p Double.zero = false.
Proof. now destruct p as [[] | [] | | [] m e]. Qed.

Lemma lt_one_fails_le (p : Double.double) :
  Double.lt Double.one p = true -> Double.le p Double.one = false.
Proof.
  unfold Double.lt, Double.le, SFltb, SFleb, Double.one.
  destruct p as [[] | [] | | [] m e]; cbn [SFcompare]; try easy.
  rewrite (Z.compare_antisym (-52) e).
  destruct (-52 ?= e); cbn [CompOpp]; try easy.
  pose proof (Pos.compare_cont_antisym 4503599627370496 m Eq) as A.
  cbn [CompOpp] in A. rewrite <- A.
  now destruct (Pos.compare_cont Eq 4503599627370496 m).
Qed.

(** Two ordered [double]s between [0.0] and [1.0]: both lie in the unit
    interval and their values are ordered the same way. *)
Lemma ordered_in_unit_interval (p1 p2 : Double.double) :
  Double.valid p1 -> Double.valid p2 ->
  Double.ge p1 Double.zero = true ->
  Double.lt p1 p2 = true ->
  Double.le p2 Double.one = true ->
  in_unit_interval p1 = true /\ in_unit_interval p2 = true
  /\ Double.scaled p1 < Double.scaled p2.
Proof.
  intros Hv1 Hv2 Hge Hlt Hle.
  assert (Hone : bounded Double.prec Double.emax 4503599627370496 (-52) = true)
    by reflexivity.
  unfold in_unit_interval.
  destruct p1 as [[] | [] | | [] m1 e1]; try discriminate;
    destruct p2 as [[] | [] | | [] m2 e2]; try discriminate.
  1-2: (* a zero of either sign below a finite value *)
    rewrite Hle; repeat split; cbn [Double.scaled cond_Zopp];
    destruct (canonical_cases m2 e2 Hv2) as (Hr & _);
    apply Z.mul_pos_pos; [lia | pow2_pos].
  - (* finite < finite *)
    unfold Double.valid in Hv1, Hv2. cbn [valid_binary] in Hv1, Hv2.
    unfold Double.lt, Double.le, SFltb, SFleb, Double.one in *.
    rewrite SFcompare_scaled_pos in Hlt, Hle by trivial.
    rewrite !SFcompare_scaled_pos by trivial.
    assert (L : Double.scaled (S754_finite false m1 e1)
                < Double.scaled (S754_finite false m2 e2)).
    { unfold Z.lt. destruct (_ ?= _) in Hlt |- *; trivial; discriminate. }
    assert (U : Double.scaled (S754_finite false m2 e2)
                <= Double.scaled (S754_finite false 4503599627370496 (-52))).
    { apply Z.compare_le_iff. intros C. now rewrite C in Hle. }
    repeat split; trivial.
    rewrite Hge. cbn [andb].
    replace (_ ?= _) with Lt; [reflexivity |].
    symmetry; apply Z.compare_lt_iff; lia.
Qed.

(** Whatever the proportion, the call either returns or stops in a check:
    the conversion to [uint64_t] is reached only where it is defined. *)
Lemma cutoff_never_undefined (p : Double.double) :
  Double.valid p -> hash64_proportion_cutoff p <> Undefined.
Proof.
  intros Hv. destruct (in_unit_interval p) eqn:Hin.
  - now rewrite cutoff_in_unit_interval.
  - unfold in_unit_interval in Hin.
    unfold hash64_proportion_cutoff, DASSERT_GE, DASSERT_LE.
    destruct (Double.ge p Double.zero); [| discriminate].
    destruct (Double.le p Double.one); discriminate.
Qed.

(** ** The model on concrete proportions *)

Example cutoff_one_half :
  hash64_proportion_cutoff one_half = Returned (2 ^ 63).
Proof. vm_compute. reflexivity. Qed.

Example cutoff_one_quarter :
  hash64_proportion_cutoff one_quarter = Returned (2 ^ 62).
Proof. vm_compute. reflexivity. Qed.

Example cutoff_below_one :
  hash64_proportion_cutoff below_one = Returned (2 ^ 64 - 2048).
Proof. vm_compute. reflexivity. Qed.

Example cutoff_least_positive :
  hash64_proportion_cutoff least_positive = Returned 0.
Proof. vm_compute. reflexivity. Qed.

Example cutoff_negative_zero :
  hash64_proportion_cutoff (S754_zero true) = Returned 0.
Proof. vm_compute. reflexivity. Qed.

Example cutoff_minus_one_tenth :
  hash64_proportion_cutoff minus_one_tenth
  = Fatal (CheckFailure OpGE minus_one_tenth Double.zero).
Proof. vm_compute. reflexivity. Qed.

Example cutoff_eleven_tenths :
  hash64_proportion_cutoff eleven_tenths
  = Fatal (CheckFailure OpLE eleven_tenths Double.one).
Proof. vm_compute. reflexivity. Qed.

Example sample_doubles_valid :
  Forall Double.valid
    [Double.zero; Double.one; two63; one_quarter; one_half; below_one;
     least_positive; minus_one_tenth; eleven_tenths].
Proof. repeat constructor. Qed.

(** ** Properties of [hash64_proportion_cutoff] *)

(** C1.  The cutoff is exact at both ends of the unit interval:
    [hash64_proportion_cutoff(0.0)] returns 0 and
    [hash64_proportion_cutoff(1.0)] returns the largest [uint64_t],
    [2^64 - 1]. *)
Theorem cutoff_boundary_exact :
  hash64_proportion_cutoff Double.zero = Returned 0
  /\ hash64_proportion_cutoff Double.one = Returned UInt64.max
  /\ UInt64.max = 2 ^ 64 - 1.
Proof. repeat split; vm_compute; reflexivity. Qed.

(** C2.  A proportion below [0.0] or above [1.0] stops the call in a failed
    check whose diagnostic names the violated bound and the offending
    value; no value is returned, clamped or otherwise. *)
Theorem cutoff_rejects_out_of_range (p : Double.double) :
  Double.lt p Double.zero = true \/ Double.lt Double.one p = true ->
  (exists c : check_failure,
      hash64_proportion_cutoff p = Fatal c
      /\ cf_lhs c = p
      /\ ((cf_op c = OpGE /\ cf_rhs c = Double.zero)
          \/ (cf_op c = OpLE /\ cf_rhs c = Double.one)))
  /\ (forall v : Z, hash64_proportion_cutoff p <> Returned v).
Proof.
  intros Hout.
  assert (Hfail : Double.ge p Double.zero = false
                  \/ (Double.ge p Double.zero = true
                      /\ Double.le p Double.one = false)).
  { destruct Hout as [Hlo | Hhi].
    - left. now apply lt_zero_fails_ge.
    - destruct (Double.ge p Double.zero); [right | left]; trivial.
      split; trivial. now apply lt_one_fails_le. }
  unfold hash64_proportion_cutoff, DASSERT_GE, DASSERT_LE.
  destruct Hfail as [Hge | [Hge Hle]].
  - rewrite Hge. cbn [bind]. split; [| discriminate].
    eexists; split; [reflexivity |]. cbn. auto.
  - rewrite Hge, Hle. cbn [bind]. split; [| discriminate].
    eexists; split; [reflexivity |]. cbn. auto.
Qed.

Lemma cutoff_rejects_out_of_range_witness :
  (exists c, hash64_proportion_cutoff minus_one_tenth = Fatal c
             /\ cf_lhs c = minus_one_tenth
             /\ ((cf_op c = OpGE /\ cf_rhs c = Double.zero)
                 \/ (cf_op c = OpLE /\ cf_rhs c = Double.one)))
  /\ (exists c, hash64_proportion_cutoff eleven_tenths = Fatal c
                /\ cf_lhs c = eleven_tenths
                /\ ((cf_op c = OpGE /\ cf_rhs c = Double.zero)
                    \/ (cf_op c = OpLE /\ cf_rhs c = Double.one))).
Proof.
  split.
  - apply (cutoff_rejects_out_of_range minus_one_tenth). left. reflexivity.
  - apply (cutoff_rejects_out_of_range eleven_tenths). right. reflexivity.
Defined.

(** The checks are all that stands between the proportion 1.1 and a result:
    the arithmetic below them, run on its own, saturates at the largest
    [uint64_t]. *)
Lemma arithmetic_saturates_above_one :
  cutoff_arithmetic eleven_tenths = Returned UInt64.max.
Proof. vm_compute. reflexivity. Qed.

(** Below zero the checks also stand before a conversion to [uint64_t]
    whose behaviour is undefined. *)
Lemma conversion_undefined_below_zero :
  cutoff_arithmetic minus_one_tenth = Undefined.
Proof. vm_compute. reflexivity. Qed.

(** C3.  For a proportion [p] in the unit interval the conversion of
    [p * 2^63] to [uint64_t] is defined, [x_half] is the floor of the exact
    product, and the cutoff is [min(clip_0, x_half) + min(clip_1, x_half)]
    with [clip_0 = 2^63] and [clip_1 = max - 2^63 = 2^63 - 1]; the sum is
    the mathematical one, nothing wraps. *)
Theorem cutoff_formula (p : Double.double) :
  Double.valid p ->
  in_unit_interval p = true ->
  exists x_half : Z,
    x_half_of p = Returned x_half
    /\ x_half = floor_scale63 p
    /\ hash64_proportion_cutoff p
       = Returned (Z.min clip_0 x_half + Z.min clip_1 x_half)
    /\ clip_0 = 2 ^ 63
    /\ clip_1 = UInt64.max - 2 ^ 63
    /\ clip_1 = 2 ^ 63 - 1.
Proof.
  intros Hv Hin. exists (floor_scale63 p).
  pose proof (floor_scale63_range p Hv Hin) as Hr.
  split; [now apply x_half_of_exact |].
  split; [reflexivity |].
  split; [| repeat split].
  rewrite cutoff_in_unit_interval, cutoff_sum_no_wrap by (trivial; lia).
  now rewrite clip_0_eq, clip_1_eq.
Qed.

Lemma cutoff_formula_witness :
  exists x_half : Z,
    x_half_of one_quarter = Returned x_half
    /\ x_half = floor_scale63 one_quarter
    /\ hash64_proportion_cutoff one_quarter
       = Returned (Z.min clip_0 x_half + Z.min clip_1 x_half)
    /\ clip_0 = 2 ^ 63
    /\ clip_1 = UInt64.max - 2 ^ 63
    /\ clip_1 = 2 ^ 63 - 1.
Proof. apply (cutoff_formula one_quarter); reflexivity. Defined.

(** C4.  The cutoff is monotone: for [0.0 <= p1 < p2 <= 1.0] both calls
    return, and the cutoff of [p1] is at most the cutoff of [p2]. *)
Theorem cutoff_monotone (p1 p2 : Double.double) :
  Double.valid p1 -> Double.valid p2 ->
  Double.ge p1 Double.zero = true ->
  Double.lt p1 p2 = true ->
  Double.le p2 Double.one = true ->
  exists c1 c2 : Z,
    hash64_proportion_cutoff p1 = Returned c1
    /\ hash64_proportion_cutoff p2 = Returned c2
    /\ c1 <= c2.
Proof.
  intros Hv1 Hv2 Hge Hlt Hle.
  destruct (ordered_in_unit_interval p1 p2 Hv1 Hv2 Hge Hlt Hle)
    as (Hin1 & Hin2 & Hs).
  exists (cutoff_sum (floor_scale63 p1)), (cutoff_sum (floor_scale63 p2)).
  split; [now apply cutoff_in_unit_interval |].
  split; [now apply cutoff_in_unit_interval |].
  apply cutoff_sum_mono.
  pose proof (floor_scale63_range p1 Hv1 Hin1) as Hr.
  split; [lia |].
  unfold floor_scale63. apply Z.div_le_mono; [| lia].
  pow2_pos.
Qed.

Lemma cutoff_monotone_witness :
  exists c1 c2 : Z,
    hash64_proportion_cutoff one_quarter = Returned c1
    /\ hash64_proportion_cutoff Double.one = Returned c2
    /\ c1 <= c2.
Proof. apply (cutoff_monotone one_quarter Double.one); reflexivity. Defined.

(** C9.  The final addition cannot wrap: for every [uint64_t] value of
    [x_half], also one that no proportion of the unit interval produces,
    [min(clip_0, x_half) + min(clip_1, x_half)] is at most
    [2^63 + (2^63 - 1)], the largest [uint64_t], and the 64-bit sum is the
    mathematical sum. *)
Theorem cutoff_sum_fits_uint64 (x_half : Z) :
  UInt64.in_range x_half = true ->
  UInt64.min clip_0 x_half + UInt64.min clip_1 x_half
    <= 2 ^ 63 + (2 ^ 63 - 1)
  /\ 2 ^ 63 + (2 ^ 63 - 1) = UInt64.max
  /\ cutoff_sum x_half = UInt64.min clip_0 x_half + UInt64.min clip_1 x_half.
Proof.
  intros Hx. apply andb_true_iff in Hx. destruct Hx as [H0 _].
  apply Z.leb_le in H0.
  rewrite cutoff_sum_no_wrap, !uint64_min_spec, clip_0_eq, clip_1_eq by lia.
  repeat split. lia.
Qed.

Lemma cutoff_sum_fits_uint64_witness :
  UInt64.min clip_0 10145709240540254208 + UInt64.min clip_1 10145709240540254208
    <= 2 ^ 63 + (2 ^ 63 - 1)
  /\ 2 ^ 63 + (2 ^ 63 - 1) = UInt64.max
  /\ cutoff_sum 10145709240540254208
     = UInt64.min clip_0 10145709240540254208
       + UInt64.min clip_1 10145709240540254208.
Proof. apply (cutoff_sum_fits_uint64 10145709240540254208). reflexivity. Defined.

(** C10.  For a proportion of the unit interval whose [x_half] is at most
    [2^63 - 1] the cutoff is exactly [2 * x_half]; so a cutoff is an even
    number unless it is the saturated value, the largest [uint64_t]: the
    cutoff moves in steps of two. *)
Theorem cutoff_is_twice_x_half (p : Double.double) (x_half : Z) :
  Double.valid p ->
  in_unit_interval p = true ->
  x_half_of p = Returned x_half ->
  (x_half <= 2 ^ 63 - 1 -> hash64_proportion_cutoff p = Returned (2 * x_half))
  /\ (exists c : Z, hash64_proportion_cutoff p = Returned c
                    /\ (Z.even c = true \/ c = UInt64.max)).
Proof.
  intros Hv Hin Hx.
  pose proof (floor_scale63_range p Hv Hin) as Hr.
  rewrite x_half_of_exact in Hx by trivial. injection Hx as <-.
  rewrite cutoff_in_unit_interval, cutoff_sum_no_wrap by (trivial; lia).
  split.
  - intros Hsmall. f_equal. lia.
  - eexists; split; [reflexivity |].
    destruct (Z_le_gt_dec (floor_scale63 p) (2 ^ 63 - 1)) as [Hsmall | Hsat].
    + left. replace (_ + _) with (2 * floor_scale63 p) by lia.
      now rewrite Z.even_mul.
    + right. replace (floor_scale63 p) with (2 ^ 63) by lia. reflexivity.
Qed.

Lemma cutoff_is_twice_x_half_witness :
  x_half_of one_quarter = Returned 2305843009213693952
  /\ hash64_proportion_cutoff one_quarter = Returned (2 * 2305843009213693952)
  /\ (exists c : Z, hash64_proportion_cutoff one_quarter = Returned c
                    /\ (Z.even c = true \/ c = UInt64.max)).
Proof.
  destruct (cutoff_is_twice_x_half one_quarter 2305843009213693952)
    as [Htwice Heven]; try reflexivity.
  split; [reflexivity |]. split; [| exact Heven].
  apply Htwice. vm_compute. discriminate.
Defined.

(** ** Properties of the hash functions *)

Section HashingFacts.

Context {flexible_type : Type} `{FlexibleType flexible_type} `{CityHash}.

Lemma hash128_loop_fold (v : list flexible_type) (h : uint128_t) :
  hash128_loop h v
  = fold_left (fun h x => hash128_combine h (ft_hash128 x)) v h.
Proof.
  revert h; induction v as [| x rest IH]; intros h; cbn [hash128_loop fold_left].
  - reflexivity.
  - apply IH.
Qed.

Lemma hash128_loop_app (v w : list flexible_type) (h : uint128_t) :
  hash128_loop h (v ++ w) = hash128_loop (hash128_loop h v) w.
Proof. now rewrite !hash128_loop_fold, fold_left_app. Qed.

(** C5.  The 128-bit hash of a vector is the left fold that starts from
    the hash of the element count and combines, element by element in
    order, the running hash with the element's 128-bit hash. *)
Theorem hash128_vector_is_fold (seq : list flexible_type) :
  hash128_vector seq = hash128_seq_spec seq
  /\ hash128_vector seq
     = fold_left (fun h x => hash128_combine h (hash128 x)) seq
                 (hash128_size (Z.of_nat (length seq))).
Proof.
  unfold hash128_vector, hash128_seq_spec, hash128.
  now rewrite hash128_loop_fold.
Qed.

(** C6.  The 64-bit hash of a vector is the 128-to-64-bit reduction of
    its 128-bit hash. *)
Theorem hash64_vector_from_hash128 (seq : list flexible_type) :
  hash64_vector seq = hash64_uint128 (hash128_vector seq).
Proof. reflexivity. Qed.

(** C7.  The 128-bit hash of the empty vector is the hash of the integer
    zero. *)
Theorem hash128_vector_empty :
  hash128_vector (@nil flexible_type) = hash128_size 0.
Proof. reflexivity. Qed.

(** C8.  On a single value the two hash functions hand back the value's
    own digests: [hash128(v)] is [v.hash128()] and [hash64(v)] is
    [v.hash()]. *)
Theorem hash_single_passthrough (v : flexible_type) :
  hash128 v = ft_hash128 v /\ hash64 v = ft_hash v.
Proof. split; reflexivity. Qed.

(** Appending one element combines once more; the seed still records the
    new length. *)
Lemma hash128_vector_snoc (v : list flexible_type) (x : flexible_type) :
  hash128_vector (v ++ [x])
  = hash128_combine
      (hash128_loop (hash128_size (Z.of_nat (length v) + 1)) v)
      (hash128 x).
Proof.
  unfold hash128_vector, hash128.
  rewrite hash128_loop_app, length_app. cbn [length hash128_loop].
  do 2 f_equal. f_equal. lia.
Qed.

End HashingFacts.

(** ** The hash functions on a toy instance *)

Section ToyChecks.

Local Existing Instances Toy.toy_value Toy.toy_cityhash.

Example toy_empty : hash128_vector (@nil Z) = 0.
Proof. reflexivity. Qed.

Example toy_order :
  hash128_vector [1; 2] = 45487 /\ hash128_vector [2; 1] = 45517.
Proof. split; reflexivity. Qed.

Example toy_hash64 : hash64_vector [1; 2] = 45487.
Proof. reflexivity. Qed.

End ToyChecks.

(** ** More on the product [proportion * 2^63] *)

Section Scaling.

Variables (s : bool) (m : positive) (e : Z).
Hypothesis Hb : bounded Double.prec Double.emax m e = true.

(** Past the exponent 908 the product leaves the range of [double]. *)
Lemma mul_two63_overflow :
  908 < e -> Double.mul (S754_finite s m e) two63 = S754_infinity s.
Proof.
  intros He.
  destruct (canonical_cases m e Hb) as (Hrange & Hd & Hcan).
  assert (Hd53 : Zpos (digits2_pos m) = 53) by lia.
  rewrite two63_eq. unfold Double.mul. cbn [SFmul].
  rewrite xorb_false_r.
  assert (Hprod : Zpos (m * 4503599627370496) = Zpos m * 2 ^ 52).
  { now rewrite Pos2Z.inj_mul. }
  unfold binary_round_aux, shr_fexp.
  rewrite Hprod, Zdigits2_mul_pow2 by lia.
  cbn [Zdigits2]. rewrite Hd53.
  assert (Hf1 : fexp Double.prec Double.emax (53 + 52 + (e + 11)) - (e + 11) = 52).
  { unfold fexp, emin, Double.prec, Double.emax. lia. }
  rewrite Hf1.
  change (shr_record_of_loc (Zpos m * 2 ^ 52) loc_Exact)
    with (exact_record (Zpos m * 2 ^ 52)).
  rewrite shr_exact by lia.
  cbn [exact_record shr_m loc_of_shr_record round_nearest_even shr_record_of_loc
       Zdigits2].
  rewrite Hd53.
  assert (Hf2 : fexp Double.prec Double.emax (53 + (e + 11 + 52)) - (e + 11 + 52) = 0).
  { unfold fexp, emin, Double.prec, Double.emax. lia. }
  rewrite Hf2. cbn [shr shr_m].
  replace (e + 11 + 52 <=? Double.emax - Double.prec) with false; [reflexivity |].
  symmetry; apply Z.leb_gt. unfold Double.emax, Double.prec. lia.
Qed.

(** The integer part of the product is the quotient of the exact value,
    rounded toward zero. *)
Lemma trunc_mul_two63 :
  e <= 908 ->
  Double.trunc (Double.mul (S754_finite s m e) two63)
  = Some (cond_Zopp s (Zpos m * 2 ^ (e + 1074) / 2 ^ 1011)).
Proof.
  intros He.
  destruct (mul_two63_finite m e Hb s He) as (m' & Hmul & Hm').
  destruct (canonical_cases m e Hb) as (Hrange & Hd & _).
  rewrite Hmul. cbn [Double.trunc]. do 2 f_equal.
  rewrite Hm', <- Z.shiftl_mul_pow2 by lia.
  rewrite Z.shiftl_shiftl by lia.
  rewrite <- Z.shiftl_mul_pow2, <- Z.shiftr_div_pow2 by lia.
  rewrite <- Z.shiftl_opp_r, Z.shiftl_shiftl by lia.
  f_equal. lia.
Qed.

End Scaling.

(** X2.  Line 55 multiplies without rounding: for a [double] of exponent
    at most 908 the product with [2^63] is again a [double], finite and of
    the same sign, and its value is the exact product. *)
Theorem mul_two63_is_exact (s : bool) (m : positive) (e : Z) :
  bounded Double.prec Double.emax m e = true ->
  e <= 908 ->
  Double.valid (Double.mul (S754_finite s m e) two63)
  /\ (exists m' e', Double.mul (S754_finite s m e) two63 = S754_finite s m' e')
  /\ Double.scaled (Double.mul (S754_finite s m e) two63)
     = Double.scaled (S754_finite s m e) * 2 ^ 63.
Proof.
  intros Hb He.
  destruct (mul_two63_finite m e Hb s He) as (m' & Hmul & Hm').
  destruct (canonical_cases m e Hb) as (Hrange & Hd & Hcan).
  set (d := Zpos (digits2_pos m)) in *.
  assert (Hdig : Zpos (digits2_pos m') = 53).
  { change (Zpos (digits2_pos m')) with (Zdigits2 (Zpos m')).
    rewrite Hm', Zdigits2_mul_pow2 by lia. cbn [Zdigits2]. fold d. lia. }
  rewrite Hmul. split; [| split].
  - unfold Double.valid. cbn [valid_binary].
    unfold bounded, canonical_mantissa, fexp, emin, Double.prec, Double.emax.
    rewrite Hdig. apply andb_true_iff; split.
    + apply Z.eqb_eq. lia.
    + apply Z.leb_le. lia.
  - now exists m', (d + e + 10).
  - cbn [Double.scaled]. rewrite Hm'.
    assert (Hpow : 2 ^ (53 - d) * 2 ^ (d + e + 10 + 1074)
                   = 2 ^ (e + 1074) * 2 ^ 63).
    { rewrite <- !Z.pow_add_r by lia. f_equal. lia. }
    destruct s; cbn [cond_Zopp];
      rewrite <- !Z.mul_assoc, Hpow; ring.
Qed.

Lemma mul_two63_is_exact_witness :
  Double.valid (Double.mul minus_one_tenth two63)
  /\ (exists m' e', Double.mul minus_one_tenth two63 = S754_finite true m' e')
  /\ Double.scaled (Double.mul minus_one_tenth two63)
     = Double.scaled minus_one_tenth * 2 ^ 63.
Proof.
  apply (mul_two63_is_exact true 7205759403792794 (-56)).
  - reflexivity.
  - vm_compute. discriminate.
Defined.

(** ** Comparisons as comparisons of values *)

(** The value of a finite [double] is not zero, and has the sign the sign
    bit says. *)
Lemma scaled_finite_pos (m : positive) (e : Z) :
  bounded Double.prec Double.emax m e = true ->
  0 < Zpos m * 2 ^ (e + 1074).
Proof.
  intros Hb. destruct (canonical_cases m e Hb) as (Hr & _).
  apply Z.mul_pos_pos; [lia | pow2_pos].
Qed.

Lemma SFcompare_scaled_finite (s1 s2 : bool) (m1 m2 : positive) (e1 e2 : Z) :
  bounded Double.prec Double.emax m1 e1 = true ->
  bounded Double.prec Double.emax m2 e2 = true ->
  SFcompare (S754_finite s1 m1 e1) (S754_finite s2 m2 e2)
  = Some (Double.scaled (S754_finite s1 m1 e1)
            ?= Double.scaled (S754_finite s2 m2 e2)).
Proof.
  intros H1 H2.
  pose proof (scaled_finite_pos m1 e1 H1) as P1.
  pose proof (scaled_finite_pos m2 e2 H2) as P2.
  destruct s1, s2.
  - pose proof (SFcompare_scaled_pos m1 m2 e1 e2 H1 H2) as P.
    cbn [SFcompare Double.scaled cond_Zopp] in P |- *.
    apply (f_equal (fun o => match o with Some c => c | None => Eq end)) in P.
    rewrite Z.compare_opp, (Z.compare_antisym (Zpos m1 * 2 ^ (e1 + 1074))), <- P.
    now destruct (e1 ?= e2).
  - cbn [SFcompare Double.scaled cond_Zopp]. f_equal.
    symmetry; apply Z.compare_lt_iff; lia.
  - cbn [SFcompare Double.scaled cond_Zopp]. f_equal.
    symmetry; apply Z.compare_gt_iff; lia.
  - now apply SFcompare_scaled_pos.
Qed.

Lemma scaled_two : Double.scaled two = 2 ^ 1075.
Proof. reflexivity. Qed.

Lemma scaled_two_m63 : Double.scaled two_m63 = 2 ^ 1011.
Proof. reflexivity. Qed.

Lemma scaled_minus_two_m63 : Double.scaled minus_two_m63 = - 2 ^ 1011.
Proof. reflexivity. Qed.

(** The powers of two the proofs below relate. *)
Lemma pow2_1074_split : 2 ^ 1074 = 2 ^ 63 * 2 ^ 1011.
Proof. now rewrite <- Z.pow_add_r by lia. Qed.

Lemma pow2_1075_split : 2 ^ 1075 = 2 ^ 64 * 2 ^ 1011.
Proof. now rewrite <- Z.pow_add_r by lia. Qed.

Lemma pow2_1011_split : 2 ^ 1011 = 2 * 2 ^ 1010.
Proof. now rewrite <- (Z.pow_succ_r 2 1010) by lia. Qed.

(** ** The return expression as a saturating doubling *)

(** X1.  Lines 57 to 60 double [x_half] and saturate: for every
    [uint64_t] value of [x_half] the returned sum is the smaller of
    [2 * x_half] and the largest [uint64_t]. *)
Theorem cutoff_sum_saturating_double (x_half : Z) :
  UInt64.in_range x_half = true ->
  cutoff_sum x_half = Z.min (2 * x_half) UInt64.max.
Proof.
  intros Hx. apply andb_true_iff in Hx. destruct Hx as [H0 H1].
  apply Z.leb_le in H0. apply Z.ltb_lt in H1.
  rewrite cutoff_sum_no_wrap by lia.
  change UInt64.max with (2 * 2 ^ 63 - 1).
  change UInt64.modulus with (2 * 2 ^ 63) in H1.
  assert (0 < 2 ^ 63) by reflexivity. lia.
Qed.

Lemma cutoff_sum_saturating_double_witness :
  cutoff_sum 10145709240540254208
  = Z.min (2 * 10145709240540254208) UInt64.max.
Proof. apply (cutoff_sum_saturating_double 10145709240540254208). reflexivity. Defined.

(** Below [2^63] the doubling is strict, and [2^63] itself lands above
    every doubled value: the sum tells the values of [x_half] apart. *)
Lemma cutoff_sum_strict (x y : Z) :
  0 <= x < y -> y <= 2 ^ 63 -> cutoff_sum x < cutoff_sum y.
Proof.
  intros Hxy Hy. rewrite !cutoff_sum_no_wrap by lia.
  assert (0 < 2 ^ 63) by reflexivity. lia.
Qed.

(** ** How the cutoff follows the proportion *)

Section Calibration.

Variable p : Double.double.
Hypothesis Hv : Double.valid p.
Hypothesis Hin : in_unit_interval p = true.

Lemma floor_scale63_spec :
  2 ^ 1011 * floor_scale63 p <= Double.scaled p
  < 2 ^ 1011 * (floor_scale63 p + 1).
Proof.
  assert (Hpos : 0 < 2 ^ 1011) by pow2_pos.
  unfold floor_scale63. split.
  - now apply Z.mul_div_le.
  - now apply Z.mul_succ_div_gt.
Qed.

(** Against another non-negative [double], [<] compares values. *)
Lemma lt_scaled_unit (mq : positive) (eq : Z) :
  bounded Double.prec Double.emax mq eq = true ->
  Double.lt p (S754_finite false mq eq)
  = (Double.scaled p <? Double.scaled (S754_finite false mq eq)).
Proof.
  intros Hq.
  pose proof (scaled_finite_pos mq eq Hq) as Pq.
  destruct (unit_interval_inv p Hv Hin) as [[s E] | (m & e & E & Hb & _ & _)];
    rewrite E.
  - cbn [Double.scaled cond_Zopp].
    symmetry. transitivity true; [apply Z.ltb_lt; lia | now destruct s].
  - unfold Double.lt, SFltb. rewrite SFcompare_scaled_finite by trivial.
    unfold Z.ltb. now destruct (_ ?= _).
Qed.

End Calibration.

(** X3.  The cutoff is the proportion scaled to the 64-bit range, to
    within two units: for [p] in the unit interval the returned [c]
    satisfies [c <= p * 2^64 < c + 2] (both sides written on the exact
    value of [p], in units of [2^-1074]). *)
Theorem cutoff_calibrated (p : Double.double) :
  Double.valid p ->
  in_unit_interval p = true ->
  exists c : Z,
    hash64_proportion_cutoff p = Returned c
    /\ c * 2 ^ 1010 <= Double.scaled p < (c + 2) * 2 ^ 1010.
Proof.
  intros Hv Hin. exists (cutoff_sum (floor_scale63 p)).
  split; [now apply cutoff_in_unit_interval |].
  pose proof (floor_scale63_range p Hv Hin) as Hr.
  pose proof (floor_scale63_spec p) as Hs.
  pose proof (scaled_unit_interval p Hv Hin) as Hu.
  rewrite cutoff_sum_no_wrap by lia.
  rewrite pow2_1074_split in Hu. rewrite pow2_1011_split in Hs, Hu.
  assert (HK : 0 < 2 ^ 1010) by pow2_pos.
  assert (HP : 0 < 2 ^ 63) by reflexivity.
  set (K := 2 ^ 1010) in *. set (P := 2 ^ 63) in *.
  set (x := floor_scale63 p) in *. set (v := Double.scaled p) in *.
  destruct (Z_le_gt_dec x (P - 1)) as [Hsmall | Hsat].
  - replace (Z.min P x + Z.min (P - 1) x) with (2 * x) by lia. nia.
  - assert (x = P) by lia. subst x.
    replace (Z.min P P + Z.min (P - 1) P) with (2 * P - 1) by lia. nia.
Qed.

Lemma cutoff_calibrated_witness :
  exists c : Z,
    hash64_proportion_cutoff below_one = Returned c
    /\ c * 2 ^ 1010 <= Double.scaled below_one < (c + 2) * 2 ^ 1010.
Proof. apply (cutoff_calibrated below_one); reflexivity. Defined.

(** X4.  Only the proportion [1.0] gets the saturated cutoff: on the unit
    interval the largest [uint64_t] is returned for [1.0] and for nothing
    else. *)
Theorem cutoff_saturates_only_at_one (p : Double.double) :
  Double.valid p ->
  in_unit_interval p = true ->
  (hash64_proportion_cutoff p = Returned UInt64.max <-> p = Double.one).
Proof.
  intros Hv Hin. split; [| intros ->; vm_compute; reflexivity].
  rewrite (cutoff_in_unit_interval p Hv Hin). intros Hc.
  pose proof (floor_scale63_range p Hv Hin) as Hr.
  pose proof (floor_scale63_spec p) as Hs.
  pose proof (scaled_unit_interval p Hv Hin) as Hu.
  assert (Hx : floor_scale63 p = 2 ^ 63).
  { injection Hc as Hc. rewrite cutoff_sum_no_wrap in Hc by lia.
    change UInt64.max with (2 * 2 ^ 63 - 1) in Hc.
    assert (0 < 2 ^ 63) by reflexivity. lia. }
  assert (Hval : Double.scaled p = 2 ^ 1074).
  { rewrite Hx in Hs. rewrite pow2_1074_split in *. lia. }
  destruct (unit_interval_inv p Hv Hin) as [[s E] | (m & e & E & Hb & _ & _)];
    rewrite E in *.
  - cbn [Double.scaled] in Hval. assert (0 < 2 ^ 1074) by pow2_pos. lia.
  - pose proof (SFcompare_scaled_pos m 4503599627370496 e (-52) Hb eq_refl) as C.
    fold Double.one in C. rewrite Hval, scaled_one, Z.compare_refl in C.
    unfold Double.one in C |- *. cbn [SFcompare] in C.
    destruct (Z.compare_spec e (-52)) as [-> | ? | ?]; try discriminate.
    rewrite Pos.compare_cont_spec in C. f_equal.
    apply Pos.compare_eq.
    now destruct (m ?= 4503599627370496)%positive.
Qed.

Lemma cutoff_saturates_only_at_one_witness :
  hash64_proportion_cutoff below_one = Returned UInt64.max
  <-> below_one = Double.one.
Proof. apply (cutoff_saturates_only_at_one below_one); reflexivity. Defined.

(** X5.  The cutoff is zero exactly for the proportions below [2^-63]:
    on the unit interval 0 is returned if and only if [p < 2^-63]. *)
Theorem cutoff_zero_iff (p : Double.double) :
  Double.valid p ->
  in_unit_interval p = true ->
  (hash64_proportion_cutoff p = Returned 0 <-> Double.lt p two_m63 = true).
Proof.
  intros Hv Hin.
  pose proof (floor_scale63_range p Hv Hin) as Hr.
  pose proof (floor_scale63_spec p) as Hs.
  pose proof (scaled_unit_interval p Hv Hin) as Hu.
  assert (HK : 0 < 2 ^ 1011) by pow2_pos.
  rewrite (cutoff_in_unit_interval p Hv Hin).
  unfold two_m63. rewrite (lt_scaled_unit p Hv Hin) by reflexivity.
  fold two_m63. rewrite scaled_two_m63, Z.ltb_lt.
  assert (Hsum : cutoff_sum (floor_scale63 p) = 0 <-> floor_scale63 p = 0).
  { rewrite cutoff_sum_no_wrap by lia.
    assert (0 < 2 ^ 63) by reflexivity. lia. }
  split.
  - intros Hc. injection Hc as Hc. apply Hsum in Hc. rewrite Hc in Hs. lia.
  - intros Hlt. f_equal. apply Hsum.
    set (K := 2 ^ 1011) in *. nia.
Qed.

Lemma cutoff_zero_iff_witness :
  hash64_proportion_cutoff least_positive = Returned 0
  <-> Double.lt least_positive two_m63 = true.
Proof. apply (cutoff_zero_iff least_positive); reflexivity. Defined.

(** X6.  The cutoff tells proportions apart at the resolution [2^-63]: two
    proportions of the unit interval get the same cutoff exactly when
    [floor (p * 2^63)] is the same for both, and when [p2] is at least
    [2^-63] above [p1] the cutoff of [p2] is strictly larger. *)
Theorem cutoff_resolution (p1 p2 : Double.double) :
  Double.valid p1 -> Double.valid p2 ->
  in_unit_interval p1 = true -> in_unit_interval p2 = true ->
  (hash64_proportion_cutoff p1 = hash64_proportion_cutoff p2
   <-> floor_scale63 p1 = floor_scale63 p2)
  /\ (Double.scaled p1 + 2 ^ 1011 <= Double.scaled p2 ->
      exists c1 c2 : Z,
        hash64_proportion_cutoff p1 = Returned c1
        /\ hash64_proportion_cutoff p2 = Returned c2
        /\ c1 < c2).
Proof.
  intros Hv1 Hv2 Hin1 Hin2.
  pose proof (floor_scale63_range p1 Hv1 Hin1) as Hr1.
  pose proof (floor_scale63_range p2 Hv2 Hin2) as Hr2.
  rewrite (cutoff_in_unit_interval p1 Hv1 Hin1).
  rewrite (cutoff_in_unit_interval p2 Hv2 Hin2).
  split.
  - split; [| now intros ->].
    intros Hc. injection Hc as Hc.
    destruct (Z.lt_trichotomy (floor_scale63 p1) (floor_scale63 p2))
      as [Hlt | [Heq | Hgt]]; trivial.
    + pose proof (cutoff_sum_strict _ _ (conj (proj1 Hr1) Hlt) (proj2 Hr2)). lia.
    + pose proof (cutoff_sum_strict _ _ (conj (proj1 Hr2) Hgt) (proj2 Hr1)). lia.
  - intros Hgap. do 2 eexists. split; [reflexivity |]. split; [reflexivity |].
    apply cutoff_sum_strict; [| lia]. split; [lia |].
    pose proof (floor_scale63_spec p1) as Hs1.
    pose proof (floor_scale63_spec p2) as Hs2.
    assert (HK : 0 < 2 ^ 1011) by pow2_pos.
    set (K := 2 ^ 1011) in *. nia.
Qed.

Lemma cutoff_resolution_witness :
  (hash64_proportion_cutoff one_quarter = hash64_proportion_cutoff one_half
   <-> floor_scale63 one_quarter = floor_scale63 one_half)
  /\ (exists c1 c2 : Z,
        hash64_proportion_cutoff one_quarter = Returned c1
        /\ hash64_proportion_cutoff one_half = Returned c2
        /\ c1 < c2).
Proof.
  destruct (cutoff_resolution one_quarter one_half) as [Hsame Hapart];
    try reflexivity.
  split; [exact Hsame |]. apply Hapart. vm_compute. discriminate.
Defined.

(** ** The arithmetic below the checks, on any [double] *)

Lemma lt_scaled_finite (s1 s2 : bool) (m1 m2 : positive) (e1 e2 : Z) :
  bounded Double.prec Double.emax m1 e1 = true ->
  bounded Double.prec Double.emax m2 e2 = true ->
  Double.lt (S754_finite s1 m1 e1) (S754_finite s2 m2 e2)
  = (Double.scaled (S754_finite s1 m1 e1)
     <? Double.scaled (S754_finite s2 m2 e2)).
Proof.
  intros H1 H2. unfold Double.lt, SFltb.
  rewrite SFcompare_scaled_finite by trivial.
  unfold Z.ltb. now destruct (_ ?= _).
Qed.

Lemma le_scaled_finite (s1 s2 : bool) (m1 m2 : positive) (e1 e2 : Z) :
  bounded Double.prec Double.emax m1 e1 = true ->
  bounded Double.prec Double.emax m2 e2 = true ->
  Double.le (S754_finite s1 m1 e1) (S754_finite s2 m2 e2)
  = (Double.scaled (S754_finite s1 m1 e1)
     <=? Double.scaled (S754_finite s2 m2 e2)).
Proof.
  intros H1 H2. unfold Double.le, SFleb.
  rewrite SFcompare_scaled_finite by trivial.
  unfold Z.leb. now destruct (_ ?= _).
Qed.

Section ArithmeticFinite.

Variables (s : bool) (m : positive) (e : Z).
Hypothesis Hb : bounded Double.prec Double.emax m e = true.

Lemma cutoff_arithmetic_finite :
  e <= 908 ->
  cutoff_arithmetic (S754_finite s m e)
  = (let z := cond_Zopp s (Zpos m * 2 ^ (e + 1074) / 2 ^ 1011) in
     if UInt64.in_range z then Returned (cutoff_sum z) else Undefined).
Proof.
  intros He. unfold cutoff_arithmetic, x_half_of, Double.to_uint64.
  rewrite (trunc_mul_two63 s m e Hb He). cbv zeta.
  now destruct (UInt64.in_range _).
Qed.

Lemma cutoff_arithmetic_overflow :
  908 < e -> cutoff_arithmetic (S754_finite s m e) = Undefined.
Proof.
  intros He. unfold cutoff_arithmetic, x_half_of, Double.to_uint64.
  now rewrite (mul_two63_overflow s m e Hb He).
Qed.

Lemma conversion_defined_finite :
  conversion_defined (S754_finite s m e)
  = (- 2 ^ 1011 <? Double.scaled (S754_finite s m e))
    && (Double.scaled (S754_finite s m e) <? 2 ^ 1075).
Proof.
  unfold conversion_defined, minus_two_m63, two.
  rewrite !lt_scaled_finite by (trivial; reflexivity).
  fold minus_two_m63 two. now rewrite scaled_minus_two_m63, scaled_two.
Qed.

End ArithmeticFinite.

(** X7.  Where lines 55 to 60 have a value: on a [double] [p] the
    conversion to [uint64_t] is defined, and the arithmetic returns, exactly
    when [-2^-63 < p < 2.0]; on every other [double] (at or below [-2^-63],
    at or above [2.0], infinite, NaN) the behaviour is undefined. *)
Theorem cutoff_arithmetic_defined (p : Double.double) :
  Double.valid p ->
  (conversion_defined p = true -> exists c : Z, cutoff_arithmetic p = Returned c)
  /\ (conversion_defined p = false -> cutoff_arithmetic p = Undefined).
Proof.
  intros Hv. destruct p as [s | s | | s m e].
  - split; [| destruct s; discriminate].
    intros _. exists 0. now destruct s.
  - split; [destruct s; discriminate | now destruct s].
  - split; [discriminate | reflexivity].
  - unfold Double.valid in Hv. cbn [valid_binary] in Hv.
    destruct (Z_le_gt_dec e 908) as [He | He].
    + rewrite conversion_defined_finite, cutoff_arithmetic_finite by trivial.
      pose proof (scaled_finite_pos m e Hv) as HA.
      cbn [Double.scaled]. cbv zeta.
      set (A := Zpos m * 2 ^ (e + 1074)) in *.
      assert (HK : 0 < 2 ^ 1011) by pow2_pos.
      assert (Hq : 0 <= A / 2 ^ 1011) by (apply Z.div_pos; lia).
      pose proof (Z.mul_div_le A (2 ^ 1011) HK) as Hlo.
      pose proof (Z.mul_succ_div_gt A (2 ^ 1011) HK) as Hhi.
      rewrite pow2_1075_split.
      change UInt64.in_range with (fun z => (0 <=? z) && (z <? 2 ^ 64)).
      cbv beta.
      set (K := 2 ^ 1011) in *. set (q := A / K) in *.
      assert (HM : 0 < 2 ^ 64) by reflexivity. set (M := 2 ^ 64) in *.
      destruct s; cbn [cond_Zopp].
      * destruct (Z.ltb_spec (- K) (- A)), (Z.ltb_spec (- A) (M * K)),
          (Z.leb_spec 0 (- q)), (Z.ltb_spec (- q) M); cbn [andb];
          split; intros; try discriminate; try (eexists; reflexivity);
          try reflexivity; exfalso; nia.
      * destruct (Z.ltb_spec (- K) A), (Z.ltb_spec A (M * K)),
          (Z.leb_spec 0 q), (Z.ltb_spec q M); cbn [andb];
          split; intros; try discriminate; try (eexists; reflexivity);
          try reflexivity; exfalso; nia.
    + rewrite cutoff_arithmetic_overflow by (trivial; lia).
      split; [| reflexivity].
      unfold conversion_defined, Double.lt, SFltb, minus_two_m63, two.
      destruct s; cbn [SFcompare andb].
      * destruct (Z.compare_spec (-115) e); try lia; discriminate.
      * destruct (Z.compare_spec e (-51)); try lia;
          rewrite andb_false_r; discriminate.
Qed.

Lemma cutoff_arithmetic_defined_witness :
  (exists c : Z, cutoff_arithmetic eleven_tenths = Returned c)
  /\ cutoff_arithmetic minus_one_tenth = Undefined.
Proof.
  split.
  - apply (proj1 (cutoff_arithmetic_defined eleven_tenths eq_refl)). reflexivity.
  - apply (proj2 (cutoff_arithmetic_defined minus_one_tenth eq_refl)). reflexivity.
Defined.

(** X8.  Lines 55 to 60 clamp on their own: on every [double] from [1.0]
    up to, but not including, [2.0] the arithmetic below the checks returns
    the largest [uint64_t]. *)
Theorem cutoff_arithmetic_clamps (p : Double.double) :
  Double.valid p ->
  Double.le Double.one p = true ->
  Double.lt p two = true ->
  cutoff_arithmetic p = Returned UInt64.max.
Proof.
  intros Hv Hle Hlt.
  destruct p as [[] | [] | | [] m e]; try discriminate.
  unfold Double.valid in Hv. cbn [valid_binary] in Hv.
  assert (He : e <= 908).
  { unfold Double.lt, SFltb, two in Hlt. cbn [SFcompare] in Hlt.
    destruct (Z.compare_spec e (-51)); try lia; discriminate. }
  unfold Double.one in Hle. unfold two in Hlt.
  rewrite le_scaled_finite in Hle by (trivial; reflexivity).
  rewrite lt_scaled_finite in Hlt by (trivial; reflexivity).
  fold Double.one in Hle. fold two in Hlt.
  rewrite scaled_one in Hle. rewrite scaled_two in Hlt.
  apply Z.leb_le in Hle. apply Z.ltb_lt in Hlt.
  rewrite cutoff_arithmetic_finite by trivial.
  cbn [Double.scaled cond_Zopp] in *. cbv zeta.
  set (A := Zpos m * 2 ^ (e + 1074)) in *.
  assert (HK : 0 < 2 ^ 1011) by pow2_pos.
  pose proof (Z.mul_div_le A (2 ^ 1011) HK) as Hlo.
  pose proof (Z.mul_succ_div_gt A (2 ^ 1011) HK) as Hhi.
  rewrite pow2_1074_split in Hle. rewrite pow2_1075_split in Hlt.
  assert (HP : 0 < 2 ^ 63) by reflexivity.
  change (2 ^ 64) with (2 * 2 ^ 63) in Hlt.
  assert (Hq : 2 ^ 63 <= A / 2 ^ 1011 < 2 * 2 ^ 63).
  { set (K := 2 ^ 1011) in *. set (P := 2 ^ 63) in *. set (q := A / K) in *.
    nia. }
  replace (UInt64.in_range (A / 2 ^ 1011)) with true.
  - f_equal. rewrite cutoff_sum_no_wrap by lia.
    change UInt64.max with (2 * 2 ^ 63 - 1). lia.
  - symmetry. unfold UInt64.in_range. apply andb_true_iff; split.
    + apply Z.leb_le; lia.
    + apply Z.ltb_lt. change UInt64.modulus with (2 * 2 ^ 63). lia.
Qed.

Lemma cutoff_arithmetic_clamps_witness :
  cutoff_arithmetic eleven_tenths = Returned UInt64.max.
Proof. apply (cutoff_arithmetic_clamps eleven_tenths); reflexivity. Defined.

(** ** What a vector hash depends on *)

Section VectorDigests.

Context `{CityHash}.

(** The loop sees an element only through its 128-bit hash. *)
Lemma hash128_loop_digests {T : Type} `{FlexibleType T}
      (v : list T) (h : uint128_t) :
  hash128_loop h v = fold_left hash128_combine (map ft_hash128 v) h.
Proof.
  revert h; induction v as [| x rest IH]; intros h; cbn [hash128_loop map fold_left].
  - reflexivity.
  - apply IH.
Qed.

(** X9.  A vector hash depends on the elements only through their 128-bit
    hashes, taken in order: two vectors, even of different value types,
    whose elements have the same [hash128()] results position by position
    get the same 128-bit and the same 64-bit hash.  What [hash()] returns
    on the elements plays no part. *)
Theorem hash_vector_by_digests {T1 T2 : Type}
        `{FlexibleType T1} `{FlexibleType T2}
        (v : list T1) (w : list T2) :
  map ft_hash128 v = map ft_hash128 w ->
  hash128_vector v = hash128_vector w /\ hash64_vector v = hash64_vector w.
Proof.
  intros Hd.
  assert (E : hash128_vector v = hash128_vector w).
  { unfold hash128_vector. cbv zeta. rewrite !hash128_loop_digests, Hd.
    do 3 f_equal.
    rewrite <- (length_map ft_hash128 v), <- (length_map ft_hash128 w).
    now rewrite Hd. }
  split; [exact E |].
  unfold hash64_vector. now rewrite E.
Qed.

End VectorDigests.

Lemma hash_vector_by_digests_witness :
  @hash128_vector Z Toy.toy_value Toy.toy_cityhash [1; 2]
  = @hash128_vector nat Toy.toy_nat_value Toy.toy_cityhash [1%nat; 2%nat]
  /\ @hash64_vector Z Toy.toy_value Toy.toy_cityhash [1; 2]
     = @hash64_vector nat Toy.toy_nat_value Toy.toy_cityhash [1%nat; 2%nat].
Proof.
  apply (@hash_vector_by_digests Toy.toy_cityhash Z nat
           Toy.toy_value Toy.toy_nat_value [1; 2] [1%nat; 2%nat]).
  reflexivity.
Defined.

Section VectorGrowth.

Context {flexible_type : Type} `{FlexibleType flexible_type} `{CityHash}.

(** X10.  Hashing a vector with one more element at its end is not one
    more combination on top of the old hash: the old elements are folded
    again, from a seed that records the new length, and the new element's
    hash is combined last. *)
Theorem hash128_vector_push_back
        (v : list flexible_type) (x : flexible_type) :
  hash128_vector (v ++ [x])
  = hash128_combine
      (fold_left (fun h y => hash128_combine h (hash128 y)) v
                 (hash128_size (Z.of_nat (length v) + 1)))
      (hash128 x).
Proof.
  unfold hash128_vector, hash128. cbv zeta.
  rewrite !hash128_loop_fold, fold_left_app, length_app.
  cbn [length fold_left]. do 3 f_equal. lia.
Qed.

End VectorGrowth.

(** ** The arithmetic below the checks, in closed form *)

Lemma conversion_defined_exponent (s : bool) (m : positive) (e : Z) :
  conversion_defined (S754_finite s m e) = true -> e <= 908.
Proof.
  unfold conversion_defined, Double.lt, SFltb, minus_two_m63, two.
  destruct s; cbn [SFcompare andb].
  - destruct (Z.compare_spec (-115) e); try lia; discriminate.
  - destruct (Z.compare_spec e (-51)); try lia;
      rewrite andb_false_r; discriminate.
Qed.

(** Where the conversion is defined, [x_half] is the exact value of
    [proportion * 2^63] with its fractional part dropped. *)
Lemma cutoff_arithmetic_quot (p : Double.double) :
  Double.valid p ->
  conversion_defined p = true ->
  cutoff_arithmetic p
  = Returned (cutoff_sum (Z.quot (Double.scaled p) (2 ^ 1011)))
  /\ 0 <= Z.quot (Double.scaled p) (2 ^ 1011) < 2 ^ 64.
Proof.
  intros Hv Hdef.
  assert (HK : 0 < 2 ^ 1011) by pow2_pos.
  destruct p as [s | s | | s m e].
  - cbn [Double.scaled]. rewrite Z.quot_0_l by lia.
    split; [now destruct s | split; [lia | reflexivity]].
  - destruct s; discriminate.
  - discriminate.
  - unfold Double.valid in Hv. cbn [valid_binary] in Hv.
    pose proof (conversion_defined_exponent s m e Hdef) as He.
    rewrite conversion_defined_finite in Hdef by trivial.
    apply andb_true_iff in Hdef. destruct Hdef as [Hlo Hhi].
    apply Z.ltb_lt in Hlo. apply Z.ltb_lt in Hhi.
    rewrite cutoff_arithmetic_finite by trivial. cbv zeta.
    pose proof (scaled_finite_pos m e Hv) as HA.
    cbn [Double.scaled] in *.
    set (A := Zpos m * 2 ^ (e + 1074)) in *.
    assert (Hz : cond_Zopp s (A / 2 ^ 1011) = Z.quot (cond_Zopp s A) (2 ^ 1011)).
    { destruct s; cbn [cond_Zopp].
      - rewrite Z.quot_opp_l, Z.quot_div_nonneg by lia. reflexivity.
      - rewrite Z.quot_div_nonneg by lia. reflexivity. }
    rewrite Hz.
    assert (Hq : 0 <= Z.quot (cond_Zopp s A) (2 ^ 1011) < 2 ^ 64).
    { rewrite <- Hz.
      pose proof (Z.mul_div_le A (2 ^ 1011) HK) as Hd1.
      pose proof (Z.mul_succ_div_gt A (2 ^ 1011) HK) as Hd2.
      assert (0 <= A / 2 ^ 1011) by (apply Z.div_pos; lia).
      rewrite pow2_1075_split in Hhi.
      assert (HM : 0 < 2 ^ 64) by reflexivity.
      set (K := 2 ^ 1011) in *. set (M := 2 ^ 64) in *. set (q := A / K) in *.
      destruct s; cbn [cond_Zopp] in *; nia. }
    split; [| exact Hq].
    replace (UInt64.in_range _) with true; [reflexivity |].
    symmetry. unfold UInt64.in_range. apply andb_true_iff; split.
    + apply Z.leb_le; lia.
    + apply Z.ltb_lt. change UInt64.modulus with (2 ^ 64). lia.
Qed.

(** On the values the conversion accepts, [<=] compares values. *)
Lemma le_scaled_defined (p1 p2 : Double.double) :
  Double.valid p1 -> Double.valid p2 ->
  conversion_defined p1 = true -> conversion_defined p2 = true ->
  Double.le p1 p2 = true -> Double.scaled p1 <= Double.scaled p2.
Proof.
  intros Hv1 Hv2 Hd1 Hd2 Hle.
  destruct p1 as [s1 | [] | | s1 m1 e1]; try discriminate;
    destruct p2 as [s2 | [] | | s2 m2 e2]; try discriminate;
    unfold Double.valid in Hv1, Hv2; cbn [valid_binary] in Hv1, Hv2.
  - pose proof (scaled_finite_pos m2 e2 Hv2).
    destruct s2; [discriminate |]. cbn [Double.scaled cond_Zopp]. lia.
  - pose proof (scaled_finite_pos m1 e1 Hv1).
    destruct s1; [| discriminate]. cbn [Double.scaled cond_Zopp]. lia.
  - rewrite le_scaled_finite in Hle by trivial. now apply Z.leb_le.
Qed.

(** X11.  Lines 55 to 60 in closed form: wherever the conversion is
    defined ([-2^-63 < p < 2.0]) the arithmetic returns
    [min (2 * t, max)], with [t] the exact value of [p * 2^63] rounded
    toward zero, a number from 0 to [2^64 - 1]. *)
Theorem cutoff_arithmetic_closed_form (p : Double.double) :
  Double.valid p ->
  conversion_defined p = true ->
  cutoff_arithmetic p
  = Returned (Z.min (2 * Z.quot (Double.scaled p) (2 ^ 1011)) UInt64.max)
  /\ 0 <= Z.quot (Double.scaled p) (2 ^ 1011) < 2 ^ 64.
Proof.
  intros Hv Hdef.
  destruct (cutoff_arithmetic_quot p Hv Hdef) as [Hc Hq].
  split; [| exact Hq].
  rewrite Hc, cutoff_sum_no_wrap by lia. f_equal.
  change UInt64.max with (2 * 2 ^ 63 - 1).
  change (2 ^ 64) with (2 * 2 ^ 63) in Hq.
  assert (0 < 2 ^ 63) by reflexivity. lia.
Qed.

Lemma cutoff_arithmetic_closed_form_witness :
  cutoff_arithmetic one_quarter
  = Returned (Z.min (2 * Z.quot (Double.scaled one_quarter) (2 ^ 1011)) UInt64.max)
  /\ 0 <= Z.quot (Double.scaled one_quarter) (2 ^ 1011) < 2 ^ 64.
Proof. apply (cutoff_arithmetic_closed_form one_quarter); reflexivity. Defined.

(** X12.  Lines 55 to 60 are monotone wherever they have a value, also
    outside the unit interval: for [p1 <= p2], both between [-2^-63] and
    [2.0], the result for [p1] is at most the result for [p2]. *)
Theorem cutoff_arithmetic_monotone (p1 p2 : Double.double) :
  Double.valid p1 -> Double.valid p2 ->
  conversion_defined p1 = true -> conversion_defined p2 = true ->
  Double.le p1 p2 = true ->
  exists c1 c2 : Z,
    cutoff_arithmetic p1 = Returned c1
    /\ cutoff_arithmetic p2 = Returned c2
    /\ c1 <= c2.
Proof.
  intros Hv1 Hv2 Hd1 Hd2 Hle.
  destruct (cutoff_arithmetic_quot p1 Hv1 Hd1) as [Hc1 Hq1].
  destruct (cutoff_arithmetic_quot p2 Hv2 Hd2) as [Hc2 Hq2].
  do 2 eexists. split; [exact Hc1 |]. split; [exact Hc2 |].
  apply cutoff_sum_mono. split; [lia |].
  apply Z.quot_le_mono; [pow2_pos |].
  now apply le_scaled_defined.
Qed.

Lemma cutoff_arithmetic_monotone_witness :
  exists c1 c2 : Z,
    cutoff_arithmetic one_half = Returned c1
    /\ cutoff_arithmetic eleven_tenths = Returned c2
    /\ c1 <= c2.
Proof.
  apply (cutoff_arithmetic_monotone one_half eleven_tenths); reflexivity.
Defined.
